(** * openlr-dereferencer: scoring and point-location decoding

    A shallow embedding of [openlr_dereferencer/decoding/scoring.py] and
    [openlr_dereferencer/decoding/point_locations.py].

    Python floats are read as exact rationals ([Q]): every finite float is a
    rational, and the arithmetic is carried out without rounding.  Equalities
    between computed numbers are therefore stated with [==] ([Qeq]).

    Where rounding decides a property, the function is modelled a second
    time on IEEE binary64 numbers (module [binary64]). *)

From Stdlib Require Import QArith Qabs Qround Lqa ZArith Lia List Bool String.
From Stdlib Require Import SpecFloat.
Import ListNotations.
Local Open Scope Q_scope.

(** ** Float helpers *)

(** Python's [x < y] on numbers. *)
Definition Qltb (x y : Q) : bool := negb (Qle_bool y x).

(** Python's [x % m] for a positive modulus: [x - m * floor (x / m)]. *)
Definition Qmod (x m : Q) : Q := x - m * inject_Z (Qfloor (x / m)).

(** A Python call either returns a value or raises [LRDecodeError]. *)
Inductive outcome (A : Type) : Type :=
| Returns (a : A)
| LRDecodeError (message : string).
Arguments Returns {A} a.
Arguments LRDecodeError {A} message.

(** ** Data of the [openlr] package and of the map interface *)

(** [openlr.FOW]: an [IntEnum] with the values 0..7, in this order. *)
Inductive FOW : Set :=
| UNDEFINED | MOTORWAY | MULTIPLE_CARRIAGEWAY | SINGLE_CARRIAGEWAY
| ROUNDABOUT | TRAFFICSQUARE | SLIPROAD | OTHER.

Definition FOW_value (f : FOW) : nat :=
  match f with
  | UNDEFINED => 0 | MOTORWAY => 1 | MULTIPLE_CARRIAGEWAY => 2
  | SINGLE_CARRIAGEWAY => 3 | ROUNDABOUT => 4 | TRAFFICSQUARE => 5
  | SLIPROAD => 6 | OTHER => 7
  end%nat.

(** [openlr.FRC]: an [IntEnum] with the values 0..7. *)
Inductive FRC : Set :=
| FRC0 | FRC1 | FRC2 | FRC3 | FRC4 | FRC5 | FRC6 | FRC7.

Definition FRC_value (f : FRC) : Z :=
  match f with
  | FRC0 => 0 | FRC1 => 1 | FRC2 => 2 | FRC3 => 3
  | FRC4 => 4 | FRC5 => 5 | FRC6 => 6 | FRC7 => 7
  end%Z.

(** [openlr.SideOfRoad] and [openlr.Orientation], carried through by the
    point decoders. *)
Inductive SideOfRoad : Set :=
| ON_ROAD_OR_UNKNOWN | RIGHT | LEFT | BOTH_SIDES.

Inductive Orientation : Set :=
| NO_ORIENTATION_OR_UNKNOWN | WITH_LINE_DIRECTION | AGAINST_LINE_DIRECTION
| BOTH_DIRECTIONS.

(** [openlr.Coordinates]: longitude and latitude. *)
Record Coordinates : Set := mkCoordinates { lon : Q; lat : Q }.

(** [openlr.LocationReferencePoint]; the scorer reads the coordinate, the
    road class, the form of way and the bearing. *)
Record LocationReferencePoint : Set := mkLRP {
  lrp_lon : Q;
  lrp_lat : Q;
  lrp_frc : FRC;
  lrp_fow : FOW;
  bear : Q;
  lfrcnp : FRC;
  dnp : Q
}.

(** [maps.abstract.Line], with the attributes the two modules read. *)
Module Line.
Record t : Set := mk {
  line_id : Z;
  length : Q;
  fow : FOW;
  frc : FRC;
  coordinates : list Coordinates
}.
End Line.

(** [tools.PointOnLine]: a line and a fractional offset along it. *)
Record PointOnLine : Set := mkPointOnLine {
  line : Line.t;
  relative_offset : Q
}.

(** [tools.coords]: the coordinate of a reference point. *)
Definition coords (lrp : LocationReferencePoint) : Coordinates :=
  mkCoordinates (lrp_lon lrp) (lrp_lat lrp).

(** The geometry the scorer calls but does not define: [maps.wgs84]
    ([distance], [bearing], [project_along_path]), [math.degrees], and the
    geometric methods of [tools.PointOnLine] ([position], [split]) with
    [tools.linestring_coords]. *)
Class Geodesy : Type := {
  LineString : Type;
  distance : Coordinates -> Coordinates -> Q;
  bearing : Coordinates -> Coordinates -> Q;
  degrees : Q -> Q;
  project_along_path : list Coordinates -> Q -> Coordinates;
  position : PointOnLine -> Coordinates;
  split : PointOnLine -> option LineString * option LineString;
  linestring_coords : LineString -> list Coordinates
}.

(** ** [decoding/scoring.py] *)

Module scoring.

Definition FOW_WEIGHT : Q := 1 / 4.
Definition FRC_WEIGHT : Q := 1 / 4.
Definition GEO_WEIGHT : Q := 1 / 4.
Definition BEAR_WEIGHT : Q := 1 / 4.

Definition BEAR_DIST : Q := 20.

(** Rows are the reference point's form of way, columns the candidate's. *)
Definition FOW_STAND_IN_SCORE : list (list Q) :=
  [ [1#2; 1#2; 1#2; 1#2; 1#2; 1#2; 1#2; 1#2];   (* Undefined FOW *)
    [1#2; 1;   3#4; 0;   0;   0;   0;   0  ];   (* Motorway *)
    [1#2; 3#4; 1;   3#4; 1#2; 0;   0;   0  ];   (* Multiple carriage way *)
    [1#2; 0;   3#4; 1;   1#2; 1#2; 0;   0  ];   (* Single carriage way *)
    [1#2; 0;   1#2; 1#2; 1;   1#2; 0;   0  ];   (* Roundabout *)
    [1#2; 0;   0;   1#2; 1#2; 1;   0;   0  ];   (* Traffic square *)
    [1#2; 0;   0;   0;   0;   0;   1;   0  ];   (* Sliproad *)
    [1#2; 0;   0;   0;   0;   0;   0;   1  ] ]. (* Other FOW *)

(** [table[i][j]]; [None] stands for Python's [IndexError]. *)
Definition lookup2 (table : list (list Q)) (i j : nat) : option Q :=
  match nth_error table i with
  | Some row => nth_error row j
  | None => None
  end.

(** [FOW_STAND_IN_SCORE[wanted][actual]].  The index is in range for every
    pair of enum values, so the default is never taken. *)
Definition score_fow (wanted actual : FOW) : Q :=
  match lookup2 FOW_STAND_IN_SCORE (FOW_value wanted) (FOW_value actual) with
  | Some s => s
  | None => 0
  end.

Definition score_frc (wanted actual : FRC) : Q :=
  1 - inject_Z (Z.abs (FRC_value actual - FRC_value wanted)) / 7.

Definition score_angle_difference (angle1 angle2 : Q) : Q :=
  let difference := Qmod (Qabs (angle1 - angle2) + 180) 360 - 180 in
  1 - Qabs difference / 180.

Section with_geodesy.
Context {G : Geodesy}.

(** The debug output is not modelled.  The division is reached only with
    [dist < radius], so the radius is not zero there unless the distance is
    negative. *)
Definition score_geolocation (wanted : LocationReferencePoint)
    (actual : PointOnLine) (radius : Q) (is_last_lrp : bool) : Q :=
  let dist := distance (coords wanted) (position actual) in
  if Qltb dist radius then 1 - dist / radius else 0.

(** The local variable [bearing_point] of [score_bearing]; [None] on the
    two early returns. *)
Definition bearing_point (actual : PointOnLine) (is_last_lrp : bool)
    : option Coordinates :=
  let '(line1, line2) := split actual in
  let coordinates :=
    if is_last_lrp then
      match line1 with
      | None => None
      | Some l1 => Some (rev (linestring_coords l1))
      end
    else
      match line2 with
      | None => None
      | Some l2 => Some (linestring_coords l2)
      end in
  match coordinates with
  | None => None
  | Some coordinates =>
      let absolute_offset :=
        Line.length (line actual) * relative_offset actual in
      Some (project_along_path coordinates (absolute_offset + BEAR_DIST))
  end.

Definition score_bearing (wanted : LocationReferencePoint)
    (actual : PointOnLine) (is_last_lrp : bool) : Q :=
  match bearing_point actual is_last_lrp with
  | None => 0
  | Some bearing_point =>
      let bear' := degrees (bearing (position actual) bearing_point) in
      score_angle_difference (bear wanted) bear'
  end.

Definition score_lrp_candidate (wanted : LocationReferencePoint)
    (candidate : PointOnLine) (radius : Q) (is_last_lrp : bool) : Q :=
  FOW_WEIGHT * score_fow (lrp_fow wanted) (Line.fow (line candidate))
  + FRC_WEIGHT * score_frc (lrp_frc wanted) (Line.frc (line candidate))
  + GEO_WEIGHT * score_geolocation wanted candidate radius is_last_lrp
  + BEAR_WEIGHT * score_bearing wanted candidate is_last_lrp.

End with_geodesy.

End scoring.

(** ** [decoding/line_location.py] and [maps]: what the point decoders use *)

(** [line_location.Route]: a start point, whole lines in between, an end
    point. *)
Record Route : Set := mkRoute {
  start : PointOnLine;
  path_inbetween : list Line.t;
  end_ : PointOnLine
}.

(** The route runs on one line only: start and end share the line and
    nothing lies in between. *)
Definition same_line (r : Route) : bool :=
  Z.eqb (Line.line_id (line (start r))) (Line.line_id (line (end_ r)))
  && match path_inbetween r with [] => true | _ => false end
  && Qle_bool (relative_offset (start r)) (relative_offset (end_ r)).

Definition sum_lengths (lines : list Line.t) : Q :=
  fold_right (fun l acc => Line.length l + acc) 0 lines.

(** Modelled from the spec: [Route.length] is defined in
    [line_location.py], which is not among the sources.  The spec gives
    start remainder + whole lines in between + end portion, and
    [line.length * (end offset - start offset)] when the route stays on one
    line. *)
Definition Route_length (r : Route) : Q :=
  if same_line r then
    Line.length (line (start r))
    * (relative_offset (end_ r) - relative_offset (start r))
  else
    Line.length (line (start r)) * (1 - relative_offset (start r))
    + sum_lengths (path_inbetween r)
    + Line.length (line (end_ r)) * relative_offset (end_ r).

(** Modelled from the spec: [Route.lines] and [get_lines] are defined in
    [line_location.py], which is not among the sources.  The lines of a
    route are its start line, the lines in between and its end line, the
    shared line counted once when the route stays on one line. *)
Definition Route_lines (r : Route) : list Line.t :=
  line (start r) :: path_inbetween r
  ++ (if same_line r then [] else [line (end_ r)]).

Definition get_lines (line_location_path : list Route) : list Line.t :=
  flat_map Route_lines line_location_path.

(** Modelled from the spec: [maps.path_length] is not among the sources.
    It is the spec's sum-of-lines length: whole line lengths added up. *)
Definition path_length (lines : list Line.t) : Q := sum_lengths lines.

(** ** [decoding/point_locations.py] *)

Module point_locations.

Record PointAlongLine : Set := mkPointAlongLine {
  pal_line : Line.t;
  pal_positive_offset : Q;
  pal_side : SideOfRoad;
  pal_orientation : Orientation
}.

Record PoiWithAccessPoint : Set := mkPoiWithAccessPoint {
  poi_line : Line.t;
  poi_positive_offset : Q;
  poi_side : SideOfRoad;
  poi_orientation : Orientation;
  poi : Coordinates
}.

(** [openlr.PointAlongLineLocation] and [openlr.PoiWithAccessPointLocation]. *)
Record PointAlongLineLocation : Set := mkPointAlongLineLocation {
  pal_points : list LocationReferencePoint;
  pal_poffs : Q;
  pal_sideOfRoad : SideOfRoad;
  pal_ref_orientation : Orientation
}.

Record PoiWithAccessPointLocation : Set := mkPoiWithAccessPointLocation {
  poi_points : list LocationReferencePoint;
  poi_poffs : Q;
  poi_lon : Q;
  poi_lat : Q;
  poi_sideOfRoad : SideOfRoad;
  poi_ref_orientation : Orientation
}.

(** The [for] loop of [point_along_linelocation]: either it returns from
    the function ([inl]) or it ends with the remaining length ([inr]). *)
Fixpoint walk_inbetween (roads : list Line.t) (leftover_length : Q)
    : (Line.t * Q) + Q :=
  match roads with
  | [] => inr leftover_length
  | road :: roads' =>
      if Qltb (Line.length road) leftover_length then
        walk_inbetween roads' (leftover_length - Line.length road)
      else
        inl (road, leftover_length)
  end.

Definition point_along_linelocation (route : Route) (length : Q)
    : outcome (Line.t * Q) :=
  let start_line := line (start route) in
  let leftover_length :=
    length - Line.length start_line * (1 - relative_offset (start route)) in
  if Qltb leftover_length 0 then
    Returns (start_line,
             Line.length start_line * relative_offset (start route) + length)
  else
    match walk_inbetween (path_inbetween route) leftover_length with
    | inl found => Returns found
    | inr leftover_length =>
        let end_offset :=
          Line.length (line (end_ route)) * relative_offset (end_ route) in
        let leftover_length := leftover_length - end_offset in
        if Qltb leftover_length 0 then
          Returns (line (end_ route), end_offset)
        else
          LRDecodeError "Path length exceeded while projecting point"
    end.

(** In both decoders [path] stands for
    [combine_routes(dereference_path(reference.points, reader, radius,
    observer))], whose code is not among the sources. *)

(** The local variable [absolute_offset] of [decode_pointalongline]. *)
Definition pointalongline_absolute_offset
    (reference : PointAlongLineLocation) (path : Route) : Q :=
  Route_length path * pal_poffs reference.

Definition decode_pointalongline (reference : PointAlongLineLocation)
    (path : Route) : outcome PointAlongLine :=
  let absolute_offset := pointalongline_absolute_offset reference path in
  match point_along_linelocation path absolute_offset with
  | Returns (line_object, line_offset) =>
      Returns (mkPointAlongLine line_object line_offset
                 (pal_sideOfRoad reference) (pal_ref_orientation reference))
  | LRDecodeError m => LRDecodeError m
  end.

(** The local variable [absolute_offset] of [decode_poi_with_accesspoint]. *)
Definition poi_absolute_offset
    (reference : PoiWithAccessPointLocation) (path : Route) : Q :=
  path_length (get_lines [path]) * poi_poffs reference.

Definition decode_poi_with_accesspoint
    (reference : PoiWithAccessPointLocation) (path : Route)
    : outcome PoiWithAccessPoint :=
  let absolute_offset := poi_absolute_offset reference path in
  match point_along_linelocation path absolute_offset with
  | Returns (line, line_offset) =>
      Returns (mkPoiWithAccessPoint line line_offset
                 (poi_sideOfRoad reference) (poi_ref_orientation reference)
                 (mkCoordinates (poi_lon reference) (poi_lat reference)))
  | LRDecodeError m => LRDecodeError m
  end.

Section with_geodesy.
Context {G : Geodesy}.

(** [PointAlongLine.coordinates] *)
Definition coordinates (self : PointAlongLine) : Coordinates :=
  project_along_path (Line.coordinates (pal_line self))
    (pal_positive_offset self).

(** [PoiWithAccessPoint.access_point_coordinates] *)
Definition access_point_coordinates (self : PoiWithAccessPoint)
    : Coordinates :=
  project_along_path (Line.coordinates (poi_line self))
    (poi_positive_offset self).

End with_geodesy.

End point_locations.

(** ** Python floats as IEEE binary64

    The numbers of the standard library's specification of floating-point
    arithmetic ([SpecFloat]) with 53 bits of precision: every operation
    rounds to nearest, ties to even, as Python's [float] does. *)

Module binary64.

Definition prec : Z := 53.
Definition emax : Z := 1024.

(** [float(z)] for an integer [z]; exact below [2^53]. *)
Definition of_Z (z : Z) : spec_float := binary_normalize prec emax z 0 false.

Definition add : spec_float -> spec_float -> spec_float := SFadd prec emax.
Definition sub : spec_float -> spec_float -> spec_float := SFsub prec emax.
Definition div : spec_float -> spec_float -> spec_float := SFdiv prec emax.



Definition is_zero (x : spec_float) : bool := SFeqb x (S754_zero false).
Definition is_negative (x : spec_float) : bool := SFltb x (S754_zero false).

(** C's [fmod]: the remainder of [x] by [y] with the sign of [x], computed
    without rounding (and not a number for a zero [y]). *)
Definition fmod (x y : spec_float) : spec_float :=
  match x, y with
  | S754_nan, _ | _, S754_nan => S754_nan
  | S754_infinity _, _ => S754_nan
  | _, S754_zero _ => S754_nan
  | S754_zero _, _ => x
  | S754_finite _ _ _, S754_infinity _ => x
  | S754_finite sx mx ex, S754_finite _ my ey =>
      let ez := Z.min ex ey in
      let r := Z.modulo (Zpos (fst (shl_align mx ex ez)))
                        (Zpos (fst (shl_align my ey ez))) in
      binary_normalize prec emax (cond_Zopp sx r) ez sx
  end.

(** Python's [x % y] on floats for a non-zero [y] (a zero [y] raises
    [ZeroDivisionError] in Python): [fmod], moved to the sign of [y]. *)
Definition float_rem (x y : spec_float) : spec_float :=
  let m := fmod x y in
  if is_zero m then S754_zero (is_negative y)
  else if xorb (is_negative y) (is_negative m) then add m y
  else m.

(** [scoring.score_angle_difference] on binary64 numbers. *)
Definition score_angle_difference (angle1 angle2 : spec_float) : spec_float :=
  let difference :=
    sub (float_rem (add (SFabs (sub angle1 angle2)) (of_Z 180)) (of_Z 360))
        (of_Z 180) in
  sub (of_Z 1) (div (SFabs difference) (of_Z 180)).

End binary64.

(** ** Well-formed data *)

(** A line has a non-negative length; a point on a line has an offset in
    [0,1] (data model of the decoder). *)
Definition wf_line (l : Line.t) : Prop := 0 <= Line.length l.

Definition wf_point (p : PointOnLine) : Prop :=
  wf_line (line p) /\ 0 <= relative_offset p /\ relative_offset p <= 1.

Definition wf_route (r : Route) : Prop :=
  wf_point (start r) /\ Forall wf_line (path_inbetween r) /\ wf_point (end_ r).

(** ** The walk along a route, in the words of the specification *)

(** The stretch of every line that the route covers, in meters from the
    line's start: the start line from its offset on, the lines in between
    as a whole, the end line up to its offset. *)
Definition route_stretches (r : Route) : list (Line.t * Q * Q) :=
  let s := line (start r) in
  let e := line (end_ r) in
  if same_line r then
    [(s, Line.length s * relative_offset (start r),
         Line.length s * relative_offset (end_ r))]
  else
    (s, Line.length s * relative_offset (start r), Line.length s)
    :: map (fun l => (l, 0, Line.length l)) (path_inbetween r)
    ++ [(e, 0, Line.length e * relative_offset (end_ r))].

(** [walked stretches d l offset]: the point [offset] meters into line [l]
    is reached by walking [d] meters from the start of the stretches. *)
Fixpoint walked (stretches : list (Line.t * Q * Q)) (d : Q)
    (l : Line.t) (offset : Q) : Prop :=
  match stretches with
  | [] => False
  | (l', from, to) :: rest =>
      (l = l' /\ from <= offset /\ offset <= to /\ offset - from == d)
      \/ walked rest (d - (to - from)) l offset
  end.

(** ** A flat test geometry

    An instance of [Geodesy] on which the functions can be run: planar
    coordinates in meters, lengths measured along the axes, straight test
    lines.  It is used to exhibit concrete inputs only; the theorems hold
    for every instance. *)

Module flat.

Definition distance (a b : Coordinates) : Q :=
  Qabs (lon b - lon a) + Qabs (lat b - lat a).

Definition between (a b : Coordinates) (t : Q) : Coordinates :=
  mkCoordinates (lon a + (lon b - lon a) * t) (lat a + (lat b - lat a) * t).

(** Modelled from the spec: [maps.wgs84.project_along_path] is not among
    the sources.  It returns the coordinate reached by walking [d] meters
    from the polyline's start along its segments, and the last vertex when
    [d] exceeds the polyline's length; here on flat coordinates. *)
Fixpoint project_along_path (path : list Coordinates) (d : Q) : Coordinates :=
  match path with
  | [] => mkCoordinates 0 0
  | a :: rest =>
      match rest with
      | [] => a
      | b :: _ =>
          if Qltb d (distance a b) then between a b (d / distance a b)
          else project_along_path rest (d - distance a b)
      end
  end.

Definition position (p : PointOnLine) : Coordinates :=
  project_along_path (Line.coordinates (line p))
    (Line.length (line p) * relative_offset p).

(** Modelled from the spec: [tools.PointOnLine.split] is not among the
    sources.  It yields the two sub-polylines before and after the offset,
    a side being absent when the offset is 0 or 1; here for straight
    lines, whose parts run from the line's start to the point and from the
    point to the line's end. *)
Definition split (p : PointOnLine)
    : option (list Coordinates) * option (list Coordinates) :=
  let cs := Line.coordinates (line p) in
  let here := position p in
  (if Qle_bool (relative_offset p) 0 then None
   else Some [hd here cs; here],
   if Qle_bool 1 (relative_offset p) then None
   else Some [here; last cs here]).

(** Azimuth in radians with [22/7] for pi: north is 0, anything heading
    south counts as a half turn. *)
Definition bearing (a b : Coordinates) : Q :=
  if Qle_bool (lat a) (lat b) then 0 else 22 # 7.

Definition degrees (x : Q) : Q := x * 180 / (22 # 7).

Definition geodesy : Geodesy :=
  Build_Geodesy (list Coordinates) distance bearing degrees
    project_along_path position split (fun l => l).

(** A straight line of 100 m heading north, and the point half way. *)
Definition north_line : Line.t :=
  Line.mk 1 100 SINGLE_CARRIAGEWAY FRC3
    [mkCoordinates 0 0; mkCoordinates 0 100].

Definition half_way : PointOnLine := mkPointOnLine north_line (1 # 2).

Definition lrp_at_start : LocationReferencePoint :=
  mkLRP 0 0 FRC3 SINGLE_CARRIAGEWAY 0 FRC3 100.

End flat.

(** ** Test routes *)

Definition line_A : Line.t := Line.mk 1 10 SINGLE_CARRIAGEWAY FRC3 [].
Definition line_B : Line.t := Line.mk 2 10 SINGLE_CARRIAGEWAY FRC3 [].

(** All of [line_A] (10 m), then the first half of [line_B] (5 m). *)
Definition route_AB : Route :=
  mkRoute (mkPointOnLine line_A 0) [] (mkPointOnLine line_B (1 # 2)).

(** The second half of [line_A] (5 m), then the first half of [line_B]. *)
Definition route_halfA_B : Route :=
  mkRoute (mkPointOnLine line_A (1 # 2)) [] (mkPointOnLine line_B (1 # 2)).

(** The first half of [line_A] alone (5 m). *)
Definition route_A_only : Route :=
  mkRoute (mkPointOnLine line_A 0) [] (mkPointOnLine line_A (1 # 2)).

(** Two references with a positive offset of one eighth. *)
Definition pal_reference : point_locations.PointAlongLineLocation :=
  point_locations.mkPointAlongLineLocation [] (1 # 8)
    ON_ROAD_OR_UNKNOWN NO_ORIENTATION_OR_UNKNOWN.

Definition poi_reference : point_locations.PoiWithAccessPointLocation :=
  point_locations.mkPoiWithAccessPointLocation [] (1 # 8) 0 0
    ON_ROAD_OR_UNKNOWN NO_ORIENTATION_OR_UNKNOWN.

(** All of [line_A], then [line_C] (20 m) as a whole, then the first half
    of [line_B]: 35 m. *)
Definition line_C : Line.t := Line.mk 3 20 MULTIPLE_CARRIAGEWAY FRC2 [].

Definition route_ACB : Route :=
  mkRoute (mkPointOnLine line_A 0) [line_C] (mkPointOnLine line_B (1 # 2)).

(** A second point on the flat test line, three quarters along. *)
Definition three_quarters : PointOnLine :=
  mkPointOnLine flat.north_line (3 # 4).

(** * Theorems *)

(** ** Comparisons and the modulus *)

Lemma Qltb_lt (x y : Q) : Qltb x y = true <-> x < y.
Proof.
  unfold Qltb. rewrite negb_true_iff.
  split; intro H.
  - apply Qnot_le_lt. intro Hle. apply Qle_bool_iff in Hle. congruence.
  - destruct (Qle_bool y x) eqn:E; [|reflexivity].
    apply Qle_bool_iff in E. lra.
Qed.

Lemma Qltb_ge (x y : Q) : Qltb x y = false <-> y <= x.
Proof.
  unfold Qltb. rewrite negb_false_iff. apply Qle_bool_iff.
Qed.

Lemma Qltb_cases (x y : Q) :
  (Qltb x y = true /\ x < y) \/ (Qltb x y = false /\ y <= x).
Proof.
  destruct (Qltb x y) eqn:E.
  - left. split; [reflexivity | now apply Qltb_lt].
  - right. split; [reflexivity | now apply Qltb_ge].
Qed.

(** The floor of [x / m] is the only integer [k] with [x = m k + r] and
    [0 <= r < m]. *)
Lemma Qfloor_div_unique (x m r : Q) (k : Z) :
  0 < m -> x == m * inject_Z k + r -> 0 <= r -> r < m ->
  Qfloor (x / m) = k.
Proof.
  intros Hm Hx Hr0 Hrm.
  assert (Hq : x / m == inject_Z k + r / m) by (rewrite Hx; field; lra).
  assert (Hlo : inject_Z k <= x / m).
  { rewrite Hq. assert (0 <= r / m) by (apply Qle_shift_div_l; lra). lra. }
  assert (Hhi : x / m < inject_Z k + 1).
  { rewrite Hq. assert (r / m < 1) by (apply Qlt_shift_div_r; lra). lra. }
  pose proof (Qfloor_le (x / m)) as Hfl.
  pose proof (Qlt_floor (x / m)) as Hfu.
  rewrite inject_Z_plus in Hfu.
  assert (H1 : inject_Z (Qfloor (x / m)) < inject_Z (k + 1)).
  { rewrite inject_Z_plus. eapply Qle_lt_trans; eauto. }
  assert (H2 : inject_Z k < inject_Z (Qfloor (x / m) + 1)).
  { rewrite inject_Z_plus. eapply Qle_lt_trans; eauto. }
  rewrite <- Zlt_Qlt in H1, H2. lia.
Qed.

Lemma Qmod_unique (x m r : Q) (k : Z) :
  0 < m -> x == m * inject_Z k + r -> 0 <= r -> r < m ->
  Qmod x m == r.
Proof.
  intros Hm Hx Hr0 Hrm. unfold Qmod.
  rewrite (Qfloor_div_unique x m r k) by assumption.
  rewrite Hx at 1. ring.
Qed.

Lemma Qmod_bounds (x m : Q) : 0 < m -> 0 <= Qmod x m /\ Qmod x m < m.
Proof.
  intros Hm. unfold Qmod.
  pose proof (Qfloor_le (x / m)) as Hfl.
  pose proof (Qlt_floor (x / m)) as Hfu.
  rewrite inject_Z_plus in Hfu.
  assert (Hx : x == m * (x / m)) by (field; lra).
  set (f := inject_Z (Qfloor (x / m))) in *.
  split.
  - assert (m * f <= m * (x / m)) by (apply Qmult_le_l; assumption).
    lra.
  - assert (m * (x / m) < m * (f + inject_Z 1))
      by (apply Qmult_lt_l; assumption).
    change (inject_Z 1) with 1 in *. lra.
Qed.

Lemma Qmod_decompose (x m : Q) :
  x == m * inject_Z (Qfloor (x / m)) + Qmod x m.
Proof. unfold Qmod. ring. Qed.

Lemma Qmod_comp (x y m : Q) : x == y -> Qmod x m == Qmod y m.
Proof.
  intros H. unfold Qmod.
  assert (E : Qfloor (x / m) = Qfloor (y / m)) by (now rewrite H).
  rewrite E, H. reflexivity.
Qed.

(** ** The angle score *)

(** The distance from [x] to the nearest multiple of 360 is periodic. *)
Lemma Qmod_shift_360 (x : Q) (k : Z) :
  Qmod (x + 360 * inject_Z k + 180) 360 == Qmod (x + 180) 360.
Proof.
  pose proof (Qmod_bounds (x + 180) 360 ltac:(lra)) as [Hlo Hhi].
  apply (Qmod_unique _ _ _ (Qfloor ((x + 180) / 360) + k)); try lra.
  rewrite inject_Z_plus.
  pose proof (Qmod_decompose (x + 180) 360) as Hd. lra.
Qed.

(** ... and even. *)
Lemma gap_opp (x : Q) :
  Qabs (Qmod (- x + 180) 360 - 180) == Qabs (Qmod (x + 180) 360 - 180).
Proof.
  pose proof (Qmod_bounds (x + 180) 360 ltac:(lra)) as [Hlo Hhi].
  pose proof (Qmod_decompose (x + 180) 360) as Hd.
  set (q := Qfloor ((x + 180) / 360)) in *.
  set (r := Qmod (x + 180) 360) in *.
  destruct (Qlt_le_dec 0 r) as [Hpos | Hzero].
  - assert (E : Qmod (- x + 180) 360 == 360 - r).
    { apply (Qmod_unique _ _ _ (- q)); try lra.
      rewrite inject_Z_opp. lra. }
    rewrite E.
    setoid_replace (360 - r - 180) with (- (r - 180)) by ring.
    apply Qabs_opp.
  - assert (Hr : r == 0) by lra.
    assert (E : Qmod (- x + 180) 360 == 0).
    { apply (Qmod_unique _ _ _ (1 - q)); try lra.
      unfold Z.sub. rewrite inject_Z_plus, inject_Z_opp.
      change (inject_Z 1) with 1. lra. }
    rewrite E, Hr. reflexivity.
Qed.

Lemma gap_abs (x : Q) :
  Qabs (Qmod (Qabs x + 180) 360 - 180) == Qabs (Qmod (x + 180) 360 - 180).
Proof.
  destruct (Qlt_le_dec x 0) as [Hneg | Hpos].
  - assert (E : Qabs x == - x) by (apply Qabs_neg; lra).
    rewrite (Qmod_comp (Qabs x + 180) (- x + 180)) by (rewrite E; reflexivity).
    apply gap_opp.
  - assert (E : Qabs x == x) by (apply Qabs_pos; lra).
    rewrite (Qmod_comp (Qabs x + 180) (x + 180)) by (rewrite E; reflexivity).
    reflexivity.
Qed.

(** The score in terms of the signed difference of the two angles. *)
Lemma score_angle_difference_gap (a b : Q) :
  scoring.score_angle_difference a b
  == 1 - Qabs (Qmod (a - b + 180) 360 - 180) / 180.
Proof.
  unfold scoring.score_angle_difference. cbv zeta.
  rewrite (gap_abs (a - b)). reflexivity.
Qed.

Lemma score_angle_difference_range (a b : Q) :
  0 <= scoring.score_angle_difference a b
  /\ scoring.score_angle_difference a b <= 1.
Proof.
  unfold scoring.score_angle_difference. cbv zeta.
  pose proof (Qmod_bounds (Qabs (a - b) + 180) 360 ltac:(lra)) as [Hlo Hhi].
  set (m := Qmod (Qabs (a - b) + 180) 360) in *.
  assert (H0 : 0 <= Qabs (m - 180)) by apply Qabs_nonneg.
  assert (H1 : Qabs (m - 180) <= 180).
  { apply Qabs_case; intros; lra. }
  set (g := Qabs (m - 180)) in *.
  assert (E : g / 180 == g * (1 # 180)) by (field).
  rewrite E. lra.
Qed.

(** In exact arithmetic, without the rounding of binary64:
    [score_angle_difference a a = 1], [score_angle_difference a (a + 180) =
    0], the score is symmetric in its two arguments, and it does not change
    when either argument is shifted by a multiple of 360 degrees. *)
Theorem score_angle_difference_algebra (a b : Q) (k : Z) :
  scoring.score_angle_difference a a == 1
  /\ scoring.score_angle_difference a (a + 180) == 0
  /\ scoring.score_angle_difference a b == scoring.score_angle_difference b a
  /\ scoring.score_angle_difference (a + 360 * inject_Z k) b
     == scoring.score_angle_difference a b
  /\ scoring.score_angle_difference a (b + 360 * inject_Z k)
     == scoring.score_angle_difference a b.
Proof.
  repeat split.
  - rewrite score_angle_difference_gap.
    assert (E : Qmod (a - a + 180) 360 == 180).
    { apply (Qmod_unique _ _ _ 0); try lra.
      change (inject_Z 0) with 0. lra. }
    rewrite E. setoid_replace (180 - 180) with 0 by ring.
    change (Qabs 0) with 0. field.
  - rewrite score_angle_difference_gap.
    assert (E : Qmod (a - (a + 180) + 180) 360 == 0).
    { apply (Qmod_unique _ _ _ 0); try lra.
      change (inject_Z 0) with 0. lra. }
    rewrite E. setoid_replace (0 - 180) with (- (180)) by ring.
    rewrite Qabs_opp. change (Qabs 180) with 180. field.
  - unfold scoring.score_angle_difference.
    rewrite (Qabs_Qminus a b). reflexivity.
  - rewrite !score_angle_difference_gap.
    rewrite (Qmod_comp (a + 360 * inject_Z k - b + 180)
                       (a - b + 360 * inject_Z k + 180)) by ring.
    rewrite Qmod_shift_360. reflexivity.
  - rewrite !score_angle_difference_gap.
    rewrite (Qmod_comp (a - (b + 360 * inject_Z k) + 180)
                       (a - b + 360 * inject_Z (- k) + 180))
      by (rewrite inject_Z_opp; ring).
    rewrite Qmod_shift_360. reflexivity.
Qed.

Example score_angle_difference_10_350 :
  scoring.score_angle_difference 10 350 == 8 # 9.
Proof. vm_compute. reflexivity. Qed.

(** ** The angle score on binary64 numbers *)








(** ** The form-of-way and road-class scores *)

(** The enum values are exactly the indices 0..7. *)
Lemma FOW_value_range (n : nat) :
  (n < 8)%nat <-> exists f, FOW_value f = n.
Proof.
  split.
  - intros H.
    do 8 (destruct n as [|n];
          [ first [ now exists UNDEFINED | now exists MOTORWAY
                  | now exists MULTIPLE_CARRIAGEWAY
                  | now exists SINGLE_CARRIAGEWAY | now exists ROUNDABOUT
                  | now exists TRAFFICSQUARE | now exists SLIPROAD
                  | now exists OTHER ] | ]).
    lia.
  - intros [f <-]. destruct f; simpl; lia.
Qed.

(** The lookup never leaves the table. *)
Lemma score_fow_lookup (wanted actual : FOW) :
  scoring.lookup2 scoring.FOW_STAND_IN_SCORE
    (FOW_value wanted) (FOW_value actual)
  = Some (scoring.score_fow wanted actual).
Proof. destruct wanted, actual; reflexivity. Qed.

Lemma score_fow_range (wanted actual : FOW) :
  0 <= scoring.score_fow wanted actual
  /\ scoring.score_fow wanted actual <= 1.
Proof. destruct wanted, actual; vm_compute; split; discriminate. Qed.

Lemma score_frc_range (wanted actual : FRC) :
  0 <= scoring.score_frc wanted actual
  /\ scoring.score_frc wanted actual <= 1.
Proof. destruct wanted, actual; vm_compute; split; discriminate. Qed.

Lemma score_frc_formula (wanted actual : FRC) :
  scoring.score_frc wanted actual
  == 1 - Qabs (inject_Z (FRC_value wanted) - inject_Z (FRC_value actual)) / 7.
Proof. destruct wanted, actual; vm_compute; reflexivity. Qed.

(** C6 as stated fails on the diagonal: the entry for [UNDEFINED] against
    [UNDEFINED] is 0.5, not 1.0. *)
Lemma fow_stand_in_undefined_diagonal_is_half :
  scoring.lookup2 scoring.FOW_STAND_IN_SCORE
    (FOW_value UNDEFINED) (FOW_value UNDEFINED) = Some (1 # 2)
  /\ scoring.score_fow UNDEFINED UNDEFINED = 1 # 2
  /\ ~ (forall f, scoring.score_fow f f == 1).
Proof.
  split; [reflexivity | split; [reflexivity |]].
  intros H. specialize (H UNDEFINED). vm_compute in H. discriminate.
Qed.

(** C6, amended: the diagonal of the stand-in matrix is 1.0 for every form
    of way other than [UNDEFINED]; the [UNDEFINED] row and the [UNDEFINED]
    column are 0.5 throughout, their common entry included; and
    [score_fow wanted actual] is the entry in row [wanted], column
    [actual]. *)
Theorem fow_stand_in_diagonal_undefined_lookup :
  (forall f, f <> UNDEFINED ->
     scoring.lookup2 scoring.FOW_STAND_IN_SCORE (FOW_value f) (FOW_value f)
     = Some 1)
  /\ (forall g,
        scoring.lookup2 scoring.FOW_STAND_IN_SCORE
          (FOW_value UNDEFINED) (FOW_value g) = Some (1 # 2)
        /\ scoring.lookup2 scoring.FOW_STAND_IN_SCORE
             (FOW_value g) (FOW_value UNDEFINED) = Some (1 # 2))
  /\ (forall wanted actual,
        scoring.lookup2 scoring.FOW_STAND_IN_SCORE
          (FOW_value wanted) (FOW_value actual)
        = Some (scoring.score_fow wanted actual)).
Proof.
  split; [|split].
  - intros f Hf. destruct f; try reflexivity. now elim Hf.
  - intros g. destruct g; split; reflexivity.
  - apply score_fow_lookup.
Qed.

Lemma fow_stand_in_diagonal_witness :
  MOTORWAY <> UNDEFINED
  /\ scoring.lookup2 scoring.FOW_STAND_IN_SCORE
       (FOW_value MOTORWAY) (FOW_value MOTORWAY) = Some 1.
Proof.
  assert (H : MOTORWAY <> UNDEFINED) by discriminate.
  split; [exact H |].
  exact (proj1 fow_stand_in_diagonal_undefined_lookup MOTORWAY H).
Defined.

(** C10: the form-of-way score is symmetric, and so is the stand-in matrix:
    the entry in row [i], column [j] is the entry in row [j], column [i]. *)
Theorem score_fow_symmetric :
  (forall a b, scoring.score_fow a b = scoring.score_fow b a)
  /\ (forall i j,
        scoring.lookup2 scoring.FOW_STAND_IN_SCORE i j
        = scoring.lookup2 scoring.FOW_STAND_IN_SCORE j i).
Proof.
  split.
  - intros a b. destruct a, b; reflexivity.
  - intros i j.
    do 8 (destruct i as [|i];
          [ do 8 (destruct j as [|j]; [reflexivity|]);
            destruct j; reflexivity | ]).
    do 8 (destruct j as [|j]; [destruct i; reflexivity|]).
    destruct i, j; reflexivity.
Qed.

(** ** The geographic score *)

Section geolocation_facts.
Context {G : Geodesy}.
Variables (wanted : LocationReferencePoint) (actual : PointOnLine).

(** C9: [score_geolocation] does not depend on [is_last_lrp]: whatever the
    two flags, and in particular for [true] and [false], the score is the
    same, namely [1 - dist / radius] below the radius and 0 otherwise. *)
Theorem score_geolocation_ignores_is_last_lrp (radius : Q) :
  (forall b1 b2 : bool,
     scoring.score_geolocation wanted actual radius b1
     = scoring.score_geolocation wanted actual radius b2)
  /\ scoring.score_geolocation wanted actual radius true
     = scoring.score_geolocation wanted actual radius false.
Proof.
  assert (H : forall b1 b2 : bool,
             scoring.score_geolocation wanted actual radius b1
             = scoring.score_geolocation wanted actual radius b2).
  { intros b1 b2. unfold scoring.score_geolocation. reflexivity. }
  split; [exact H | apply H].
Qed.

(** C7: for a radius [r > 0] the geographic score is [1 - dist / r] while
    the distance from the reference point to the candidate is within [r],
    and 0 from [r] on; so it is 1 at distance 0, 0 at distance [r] or more,
    and falls linearly in between. *)
Theorem score_geolocation_linear (radius : Q) (is_last_lrp : bool) :
  0 < radius ->
  let dist := distance (coords wanted) (position actual) in
  (dist <= radius ->
     scoring.score_geolocation wanted actual radius is_last_lrp
     == 1 - dist / radius)
  /\ (radius <= dist ->
        scoring.score_geolocation wanted actual radius is_last_lrp == 0)
  /\ (dist == 0 ->
        scoring.score_geolocation wanted actual radius is_last_lrp == 1).
Proof.
  intros Hr dist. unfold scoring.score_geolocation. fold dist.
  destruct (Qltb_cases dist radius) as [[-> Hlt] | [-> Hge]].
  - split; [reflexivity | split].
    + intros Hle. lra.
    + intros H0. rewrite H0. field. lra.
  - split; [| split].
    + intros Hle. assert (E : dist == radius) by lra.
      rewrite E. field. lra.
    + reflexivity.
    + intros H0. lra.
Qed.

Lemma score_geolocation_range (radius : Q) (is_last_lrp : bool) :
  0 <= distance (coords wanted) (position actual) ->
  0 <= scoring.score_geolocation wanted actual radius is_last_lrp
  /\ scoring.score_geolocation wanted actual radius is_last_lrp <= 1.
Proof.
  intros Hd. unfold scoring.score_geolocation.
  set (dist := distance (coords wanted) (position actual)) in *.
  destruct (Qltb_cases dist radius) as [[-> Hlt] | [-> Hge]]; [| lra].
  assert (H0 : 0 <= dist / radius) by (apply Qle_shift_div_l; lra).
  assert (H1 : dist / radius <= 1) by (apply Qle_shift_div_r; lra).
  lra.
Qed.

End geolocation_facts.

Lemma flat_distance_nonneg (a b : Coordinates) : 0 <= flat.distance a b.
Proof.
  unfold flat.distance.
  pose proof (Qabs_nonneg (lon b - lon a)).
  pose proof (Qabs_nonneg (lat b - lat a)). lra.
Qed.

Lemma score_geolocation_linear_witness :
  0 < 100
  /\ scoring.score_geolocation (G := flat.geodesy)
       flat.lrp_at_start flat.half_way 100 false == 1 # 2.
Proof.
  assert (Hr : 0 < 100) by reflexivity.
  split; [exact Hr |].
  pose proof (score_geolocation_linear (G := flat.geodesy)
                flat.lrp_at_start flat.half_way 100 false Hr) as H.
  cbv zeta in H. destruct H as [H _].
  rewrite H; vm_compute; [reflexivity | discriminate].
Defined.

(** ** The bearing score *)

Section bearing_facts.
Context {G : Geodesy}.
Variables (wanted : LocationReferencePoint) (actual : PointOnLine).

Lemma score_bearing_range (is_last_lrp : bool) :
  0 <= scoring.score_bearing wanted actual is_last_lrp
  /\ scoring.score_bearing wanted actual is_last_lrp <= 1.
Proof.
  unfold scoring.score_bearing.
  destruct (scoring.bearing_point actual is_last_lrp).
  - apply score_angle_difference_range.
  - lra.
Qed.

(** What [score_bearing] computes: with a forward-looking sub-polyline
    present (the after-split part for a non-terminal reference point, the
    reversed before-split part for the last one), the probe is the point
    [project_along_path] reaches on that sub-polyline after
    [line.length * relative_offset + BEAR_DIST] meters, with
    [BEAR_DIST = 20], and the bearing from the candidate's position to the
    probe is scored against [wanted.bear]. *)
Theorem score_bearing_probe :
  scoring.BEAR_DIST = 20
  /\ (forall l2, snd (split actual) = Some l2 ->
        let probe :=
          project_along_path (linestring_coords l2)
            (Line.length (line actual) * relative_offset actual
             + scoring.BEAR_DIST) in
        scoring.bearing_point actual false = Some probe
        /\ scoring.score_bearing wanted actual false
           = scoring.score_angle_difference (bear wanted)
               (degrees (bearing (position actual) probe)))
  /\ (forall l1, fst (split actual) = Some l1 ->
        let probe :=
          project_along_path (rev (linestring_coords l1))
            (Line.length (line actual) * relative_offset actual
             + scoring.BEAR_DIST) in
        scoring.bearing_point actual true = Some probe
        /\ scoring.score_bearing wanted actual true
           = scoring.score_angle_difference (bear wanted)
               (degrees (bearing (position actual) probe))).
Proof.
  split; [reflexivity |].
  unfold scoring.score_bearing, scoring.bearing_point.
  destruct (split actual) as [line1 line2]; simpl.
  split.
  - intros l2 ->. split; reflexivity.
  - intros l1 ->. split; reflexivity.
Qed.

End bearing_facts.

(** C3 on the code: half way along a straight 100 m line the probe is
    taken 70 m (not 20 m) down the after-split part, which is only 50 m long,
    so the probe is the line's end, 100 m north, where walking 20 m from the
    candidate gives the point 70 m north; for the last reference point the
    probe is the line's start, where walking 20 m back from the candidate
    gives the point 30 m north. *)
Theorem bearing_point_not_at_bear_dist :
  (exists l2 probe,
     snd (split (Geodesy := flat.geodesy) flat.half_way) = Some l2
     /\ scoring.bearing_point (G := flat.geodesy) flat.half_way false
        = Some probe
     /\ lat probe == 100
     /\ lat (flat.project_along_path l2 scoring.BEAR_DIST) == 70
     /\ scoring.bearing_point (G := flat.geodesy) flat.half_way false
        <> Some (flat.project_along_path l2 scoring.BEAR_DIST))
  /\ (exists l1 probe,
        fst (split (Geodesy := flat.geodesy) flat.half_way) = Some l1
        /\ scoring.bearing_point (G := flat.geodesy) flat.half_way true
           = Some probe
        /\ lat probe == 0
        /\ lat (flat.project_along_path (rev l1) scoring.BEAR_DIST) == 30
        /\ scoring.bearing_point (G := flat.geodesy) flat.half_way true
           <> Some (flat.project_along_path (rev l1) scoring.BEAR_DIST)).
Proof.
  split.
  - do 2 eexists.
    split; [vm_compute; reflexivity |].
    split; [vm_compute; reflexivity |].
    split; [vm_compute; reflexivity |].
    split; [vm_compute; reflexivity |].
    vm_compute. discriminate.
  - do 2 eexists.
    split; [vm_compute; reflexivity |].
    split; [vm_compute; reflexivity |].
    split; [vm_compute; reflexivity |].
    split; [vm_compute; reflexivity |].
    vm_compute. discriminate.
Qed.

Lemma score_bearing_probe_witness :
  snd (split (Geodesy := flat.geodesy) flat.half_way)
  = Some [flat.position flat.half_way; mkCoordinates 0 100]
  /\ scoring.score_bearing (G := flat.geodesy)
       flat.lrp_at_start flat.half_way false == 1.
Proof.
  assert (Hsplit : snd (split (Geodesy := flat.geodesy) flat.half_way)
                   = Some [flat.position flat.half_way; mkCoordinates 0 100])
    by reflexivity.
  split; [exact Hsplit |].
  destruct (score_bearing_probe (G := flat.geodesy)
              flat.lrp_at_start flat.half_way) as [_ [H _]].
  destruct (H _ Hsplit) as [_ Hscore].
  rewrite Hscore. vm_compute. reflexivity.
Defined.

(** ** The candidate score *)

Section candidate_facts.
Context {G : Geodesy}.
Variables (wanted : LocationReferencePoint) (candidate : PointOnLine).
Variables (radius : Q) (is_last_lrp : bool).

(** C5: the four sub-scores lie in [0,1]; the four weights are 0.25 each and
    add up to 1; [score_lrp_candidate] is the weighted sum of the sub-scores
    and lies in [0,1].  The distance reported by the map geometry is taken
    to be non-negative. *)
Theorem score_lrp_candidate_range :
  0 <= distance (coords wanted) (position candidate) ->
  let s_fow := scoring.score_fow (lrp_fow wanted) (Line.fow (line candidate)) in
  let s_frc := scoring.score_frc (lrp_frc wanted) (Line.frc (line candidate)) in
  let s_geo := scoring.score_geolocation wanted candidate radius is_last_lrp in
  let s_bear := scoring.score_bearing wanted candidate is_last_lrp in
  (0 <= s_fow /\ s_fow <= 1)
  /\ (0 <= s_frc /\ s_frc <= 1)
  /\ (0 <= s_geo /\ s_geo <= 1)
  /\ (0 <= s_bear /\ s_bear <= 1)
  /\ (scoring.FOW_WEIGHT == 1 # 4 /\ scoring.FRC_WEIGHT == 1 # 4
      /\ scoring.GEO_WEIGHT == 1 # 4 /\ scoring.BEAR_WEIGHT == 1 # 4)
  /\ scoring.FOW_WEIGHT + scoring.FRC_WEIGHT
     + scoring.GEO_WEIGHT + scoring.BEAR_WEIGHT == 1
  /\ scoring.score_lrp_candidate wanted candidate radius is_last_lrp
     == scoring.FOW_WEIGHT * s_fow + scoring.FRC_WEIGHT * s_frc
        + scoring.GEO_WEIGHT * s_geo + scoring.BEAR_WEIGHT * s_bear
  /\ (0 <= scoring.score_lrp_candidate wanted candidate radius is_last_lrp
      /\ scoring.score_lrp_candidate wanted candidate radius is_last_lrp <= 1).
Proof.
  intros Hdist s_fow s_frc s_geo s_bear.
  pose proof (score_fow_range (lrp_fow wanted) (Line.fow (line candidate)))
    as Hfow.
  pose proof (score_frc_range (lrp_frc wanted) (Line.frc (line candidate)))
    as Hfrc.
  pose proof (score_geolocation_range wanted candidate radius is_last_lrp Hdist)
    as Hgeo.
  pose proof (score_bearing_range (G := G) wanted candidate is_last_lrp)
    as Hbear.
  fold s_fow in Hfow. fold s_frc in Hfrc.
  fold s_geo in Hgeo. fold s_bear in Hbear.
  assert (Hw : scoring.FOW_WEIGHT == 1 # 4 /\ scoring.FRC_WEIGHT == 1 # 4
               /\ scoring.GEO_WEIGHT == 1 # 4 /\ scoring.BEAR_WEIGHT == 1 # 4)
    by (repeat split; reflexivity).
  destruct Hw as (Wfow & Wfrc & Wgeo & Wbear).
  assert (Hsum : scoring.score_lrp_candidate wanted candidate radius is_last_lrp
                 == scoring.FOW_WEIGHT * s_fow + scoring.FRC_WEIGHT * s_frc
                    + scoring.GEO_WEIGHT * s_geo + scoring.BEAR_WEIGHT * s_bear)
    by reflexivity.
  repeat split; try tauto; try assumption; try reflexivity.
  - rewrite Hsum, Wfow, Wfrc, Wgeo, Wbear. lra.
  - rewrite Hsum, Wfow, Wfrc, Wgeo, Wbear. lra.
Qed.

End candidate_facts.

Lemma score_lrp_candidate_range_witness :
  0 <= distance (Geodesy := flat.geodesy)
         (coords flat.lrp_at_start)
         (position (Geodesy := flat.geodesy) flat.half_way)
  /\ 0 <= scoring.score_lrp_candidate (G := flat.geodesy)
            flat.lrp_at_start flat.half_way 100 false
  /\ scoring.score_lrp_candidate (G := flat.geodesy)
       flat.lrp_at_start flat.half_way 100 false <= 1.
Proof.
  assert (Hd : 0 <= distance (Geodesy := flat.geodesy)
                      (coords flat.lrp_at_start)
                      (position (Geodesy := flat.geodesy) flat.half_way))
    by (vm_compute; discriminate).
  split; [exact Hd |].
  pose proof (score_lrp_candidate_range (G := flat.geodesy)
                flat.lrp_at_start flat.half_way 100 false Hd) as H.
  cbv zeta in H. exact (proj2 (proj2 (proj2 (proj2 (proj2 (proj2 (proj2 H))))))).
Defined.

(** ** Walking along a route *)

Lemma sum_lengths_nonneg (roads : list Line.t) :
  Forall wf_line roads -> 0 <= sum_lengths roads.
Proof.
  induction 1 as [| road roads Hroad _ IH]; simpl.
  - lra.
  - unfold wf_line in Hroad. lra.
Qed.

(** When the loop returns, it returns one of the roads and an offset on
    that road. *)
Lemma walk_inbetween_found (roads : list Line.t) :
  forall leftover road offset,
    0 <= leftover ->
    point_locations.walk_inbetween roads leftover = inl (road, offset) ->
    In road roads /\ 0 <= offset /\ offset <= Line.length road
    /\ exists before after,
         roads = before ++ road :: after
         /\ offset == leftover - sum_lengths before.
Proof.
  induction roads as [| r roads IH]; intros leftover road offset H0 Hwalk;
    simpl in Hwalk.
  - discriminate.
  - destruct (Qltb_cases (Line.length r) leftover) as [[E Hlt] | [E Hge]];
      rewrite E in Hwalk.
    + assert (H0' : 0 <= leftover - Line.length r) by lra.
      destruct (IH _ _ _ H0' Hwalk)
        as (Hin & Hlo & Hhi & before & after & -> & Hoff).
      repeat split; [now right | assumption | assumption |].
      exists (r :: before), after. split; [reflexivity |].
      simpl. lra.
    + injection Hwalk as <- <-.
      repeat split; [now left | assumption | assumption |].
      exists [], roads. split; [reflexivity |]. simpl. lra.
Qed.

(** When the loop runs to its end, every road has been taken off the
    remaining length. *)
Lemma walk_inbetween_exhausted (roads : list Line.t) :
  forall leftover rest,
    point_locations.walk_inbetween roads leftover = inr rest ->
    rest == leftover - sum_lengths roads
    /\ (0 <= leftover -> 0 <= rest).
Proof.
  induction roads as [| r roads IH]; intros leftover rest Hwalk;
    simpl in Hwalk.
  - injection Hwalk as <-. simpl. split; [ring | auto].
  - destruct (Qltb_cases (Line.length r) leftover) as [[E Hlt] | [E Hge]];
      rewrite E in Hwalk; [| discriminate].
    destruct (IH _ _ Hwalk) as [Hrest Hpos].
    split.
    + simpl. lra.
    + intros H0. apply Hpos. lra.
Qed.

(** A remaining length that the roads cannot hold runs the loop to its
    end. *)
Lemma walk_inbetween_beyond (roads : list Line.t) :
  forall leftover,
    Forall wf_line roads ->
    sum_lengths roads < leftover ->
    exists rest,
      point_locations.walk_inbetween roads leftover = inr rest
      /\ rest == leftover - sum_lengths roads.
Proof.
  induction roads as [| r roads IH]; intros leftover Hwf Hlt.
  - exists leftover. split; [reflexivity | simpl; ring].
  - inversion Hwf as [| ? ? Hr Hrs]; subst.
    pose proof (sum_lengths_nonneg roads Hrs) as Hsum.
    simpl in Hlt. unfold wf_line in Hr. simpl.
    destruct (Qltb_cases (Line.length r) leftover) as [[E _] | [E Hge]];
      [| lra].
    rewrite E.
    assert (Hlt' : sum_lengths roads < leftover - Line.length r) by lra.
    destruct (IH (leftover - Line.length r) Hrs Hlt') as (rest & Heq & Hrest).
    exists rest. split; [exact Heq | simpl; lra].
Qed.

(** A remaining length that the roads can hold makes the loop return. *)
Lemma walk_inbetween_within (roads : list Line.t) :
  forall leftover,
    roads <> [] ->
    0 <= leftover ->
    leftover <= sum_lengths roads ->
    exists road offset,
      point_locations.walk_inbetween roads leftover = inl (road, offset).
Proof.
  induction roads as [| r roads IH]; intros leftover Hne H0 Hle.
  - now elim Hne.
  - simpl.
    destruct (Qltb_cases (Line.length r) leftover) as [[E Hlt] | [E Hge]];
      rewrite E; [| now do 2 eexists].
    simpl in Hle.
    apply IH; [| lra | lra].
    intros ->. simpl in Hle. lra.
Qed.

(** The point found on a road in between lies the walked distance from the
    start of the stretches. *)
Lemma walked_inbetween (before after : list Line.t) (road : Line.t)
    (tail : list (Line.t * Q * Q)) (offset : Q) :
  forall d,
    offset == d - sum_lengths before ->
    0 <= offset ->
    offset <= Line.length road ->
    walked (map (fun l => (l, 0, Line.length l)) (before ++ road :: after)
            ++ tail) d road offset.
Proof.
  induction before as [| b before IH]; intros d Hoff Hlo Hhi; simpl in *.
  - left. repeat split; lra.
  - right. apply IH; [lra | assumption | assumption].
Qed.

Section walk_facts.
Variable route : Route.
Hypothesis route_wf : wf_route route.

Let start_line := line (start route).
Let end_line := line (end_ route).
Let start_rest :=
  Line.length start_line * (1 - relative_offset (start route)).
Let end_part := Line.length end_line * relative_offset (end_ route).

Lemma start_rest_bounds :
  0 <= Line.length start_line * relative_offset (start route)
  /\ 0 <= start_rest
  /\ start_rest
     == Line.length start_line
        - Line.length start_line * relative_offset (start route).
Proof.
  destruct route_wf as ((Hl & Ho0 & Ho1) & _ & _).
  unfold wf_line in Hl. fold start_line in Hl. unfold start_rest.
  repeat split.
  - apply Qmult_le_0_compat; assumption.
  - apply Qmult_le_0_compat; lra.
  - ring.
Qed.

Lemma end_part_bounds : 0 <= end_part /\ end_part <= Line.length end_line.
Proof.
  destruct route_wf as (_ & _ & (Hl & Ho0 & Ho1)).
  unfold wf_line in Hl. fold end_line in Hl. unfold end_part.
  split.
  - apply Qmult_le_0_compat; assumption.
  - assert (H : 0 <= Line.length end_line * (1 - relative_offset (end_ route)))
      by (apply Qmult_le_0_compat; lra).
    assert (E : Line.length end_line * (1 - relative_offset (end_ route))
                == Line.length end_line
                   - Line.length end_line * relative_offset (end_ route))
      by ring.
    lra.
Qed.

(** Whatever the walk returns for a non-negative distance is a line of the
    route with an offset on that line. *)
Lemma point_along_linelocation_in_bounds (d : Q) (l : Line.t) (offset : Q) :
  0 <= d ->
  point_locations.point_along_linelocation route d = Returns (l, offset) ->
  In l (start_line :: path_inbetween route ++ [end_line])
  /\ 0 <= offset /\ offset <= Line.length l.
Proof.
  intros Hd Hret.
  destruct start_rest_bounds as (Hso & Hsr & Esr).
  destruct end_part_bounds as (He0 & He1).
  unfold point_locations.point_along_linelocation in Hret.
  fold start_line start_rest in Hret.
  destruct (Qltb_cases (d - start_rest) 0) as [[E Hlt] | [E Hge]];
    rewrite E in Hret.
  - injection Hret as <- <-.
    repeat split; [now left | lra | lra].
  - destruct (point_locations.walk_inbetween (path_inbetween route)
                (d - start_rest)) as [[road off] | rest] eqn:Hwalk.
    + injection Hret as <- <-.
      destruct (walk_inbetween_found _ _ _ _ Hge Hwalk) as (Hin & Hlo & Hhi & _).
      repeat split; [| assumption | assumption].
      right. apply in_or_app. now left.
    + fold end_line end_part in Hret.
      destruct (Qltb_cases (rest - end_part) 0) as [[E' _] | [E' _]];
        rewrite E' in Hret; [| discriminate].
      injection Hret as <- <-.
      repeat split; [| assumption | assumption].
      right. apply in_or_app. right. now left.
Qed.

(** Every distance below the route's length is walked without error. *)
Lemma point_along_linelocation_returns_below (d : Q) :
  d < Route_length route ->
  exists found,
    point_locations.point_along_linelocation route d = Returns found.
Proof.
  intros Hd.
  destruct start_rest_bounds as (Hso & Hsr & Esr).
  destruct end_part_bounds as (He0 & He1).
  unfold point_locations.point_along_linelocation.
  fold start_line start_rest.
  destruct (Qltb_cases (d - start_rest) 0) as [[E Hlt] | [E Hge]];
    rewrite E; [eexists; reflexivity |].
  unfold Route_length in Hd. fold start_line end_line in Hd.
  destruct (same_line route).
  - (* on one line the route is no longer than the rest of the line *)
    exfalso.
    destruct route_wf as ((Hl & _ & _) & _ & (_ & _ & Ho1)).
    unfold wf_line in Hl. fold start_line in Hl.
    assert (H : 0 <= Line.length start_line
                     * (1 - relative_offset (end_ route)))
      by (apply Qmult_le_0_compat; lra).
    assert (E1 : Line.length start_line
                 * (relative_offset (end_ route)
                    - relative_offset (start route))
                 == start_rest
                    - Line.length start_line
                      * (1 - relative_offset (end_ route)))
      by (unfold start_rest; ring).
    lra.
  - fold start_rest end_part in Hd.
    destruct (point_locations.walk_inbetween (path_inbetween route)
                (d - start_rest)) as [found | rest] eqn:Hwalk;
      [eexists; reflexivity |].
    destruct (walk_inbetween_exhausted _ _ _ Hwalk) as [Hrest _].
    fold end_line end_part.
    destruct (Qltb_cases (rest - end_part) 0) as [[E' _] | [E' Hge']];
      rewrite E'; [eexists; reflexivity | lra].
Qed.

(** Every distance above the length of a route over several lines raises
    the error. *)
Lemma point_along_linelocation_raises_above (d : Q) :
  same_line route = false ->
  Route_length route < d ->
  point_locations.point_along_linelocation route d
  = LRDecodeError "Path length exceeded while projecting point".
Proof.
  intros Hsame Hd.
  destruct start_rest_bounds as (Hso & Hsr & Esr).
  destruct end_part_bounds as (He0 & He1).
  destruct route_wf as (_ & Hroads & _).
  pose proof (sum_lengths_nonneg _ Hroads) as Hsum.
  unfold Route_length in Hd. rewrite Hsame in Hd.
  fold start_line end_line in Hd. fold start_rest end_part in Hd.
  unfold point_locations.point_along_linelocation.
  fold start_line start_rest.
  destruct (Qltb_cases (d - start_rest) 0) as [[E Hlt] | [E Hge]];
    rewrite E; [lra |].
  assert (Hbeyond : sum_lengths (path_inbetween route) < d - start_rest)
    by lra.
  destruct (walk_inbetween_beyond _ _ Hroads Hbeyond) as (rest & -> & Hrest).
  fold end_line end_part.
  destruct (Qltb_cases (rest - end_part) 0) as [[E' Hlt'] | [E' _]];
    rewrite E'; [lra | reflexivity].
Qed.

(** In exact arithmetic, up to the end of the last line in between, the walk
    returns the point
    that lies the given distance from the route's start. *)
Lemma point_along_linelocation_walked_before_end (d : Q) :
  same_line route = false ->
  0 <= d ->
  d < start_rest
  \/ (path_inbetween route <> []
      /\ d <= start_rest + sum_lengths (path_inbetween route)) ->
  exists l offset,
    point_locations.point_along_linelocation route d = Returns (l, offset)
    /\ walked (route_stretches route) d l offset.
Proof.
  intros Hsame Hd Hrange.
  destruct start_rest_bounds as (Hso & Hsr & Esr).
  unfold route_stretches. rewrite Hsame.
  unfold point_locations.point_along_linelocation.
  fold start_line start_rest end_line.
  destruct (Qltb_cases (d - start_rest) 0) as [[E Hlt] | [E Hge]]; rewrite E.
  - do 2 eexists. split; [reflexivity |].
    simpl. left. repeat split; lra.
  - destruct Hrange as [Hlt | [Hne Hle]]; [lra |].
    assert (Hle' : d - start_rest <= sum_lengths (path_inbetween route))
      by lra.
    destruct (walk_inbetween_within _ _ Hne Hge Hle')
      as (road & offset & Hwalk).
    rewrite Hwalk. exists road, offset. split; [reflexivity |].
    destruct (walk_inbetween_found _ _ _ _ Hge Hwalk)
      as (_ & Hlo & Hhi & before & after & Hroads & Hoff).
    rewrite Hroads. simpl. right.
    apply walked_inbetween; [| assumption | assumption].
    lra.
Qed.

End walk_facts.

(** ** The walk at the end of a route *)

Lemma route_AB_wf : wf_route route_AB.
Proof.
  unfold wf_route, wf_point, wf_line, route_AB; simpl.
  repeat split; try discriminate. constructor.
Qed.

Lemma route_halfA_B_wf : wf_route route_halfA_B.
Proof.
  unfold wf_route, wf_point, wf_line, route_halfA_B; simpl.
  repeat split; try discriminate. constructor.
Qed.

(** C1 on the code: on the route made of all of [line_A] (10 m) and the
    first half of [line_B] (5 m), walking 12 m ends 2 m into [line_B], but
    [point_along_linelocation] returns the offset 5, the end of the route.
    The distance is within the route's length of 15 m. *)
Theorem point_along_linelocation_end_offset :
  wf_route route_AB
  /\ Route_length route_AB == 15
  /\ (exists offset,
        point_locations.point_along_linelocation route_AB 12
        = Returns (line_B, offset)
        /\ offset == 5)
  /\ walked (route_stretches route_AB) 12 line_B 2
  /\ ~ walked (route_stretches route_AB) 12 line_B 5.
Proof.
  split; [exact route_AB_wf |].
  split; [vm_compute; reflexivity |].
  split; [eexists; split; [vm_compute; reflexivity | vm_compute; reflexivity] |].
  split.
  - simpl. right. left.
    repeat split; vm_compute; first [reflexivity | discriminate].
  - simpl. intros [(Hl & _) | [(_ & _ & _ & H) | []]].
    + discriminate Hl.
    + vm_compute in H. discriminate H.
Qed.

(** C2 on the code: on the same route the distance 15 is the route's
    length, not more, and [point_along_linelocation] raises the error. *)
Theorem point_along_linelocation_raises_at_length :
  wf_route route_AB
  /\ Route_length route_AB == 15
  /\ point_locations.point_along_linelocation route_AB 15
     = LRDecodeError "Path length exceeded while projecting point".
Proof.
  split; [exact route_AB_wf |].
  split; vm_compute; reflexivity.
Qed.

(** On a route that stays on one line the walk goes on past the route's
    end without an error: the route over the first half of [line_A] is 5 m
    long, and 7 m are walked to the offset 7. *)
Lemma point_along_linelocation_same_line_overshoot :
  wf_route route_A_only
  /\ Route_length route_A_only == 5
  /\ exists offset,
       point_locations.point_along_linelocation route_A_only 7
       = Returns (line_A, offset)
       /\ offset == 7.
Proof.
  split.
  - unfold wf_route, wf_point, wf_line, route_A_only; simpl.
    repeat split; try discriminate. constructor.
  - split; [vm_compute; reflexivity |].
    eexists. split; vm_compute; reflexivity.
Qed.

(** ** The offset base of the two point decoders *)

(** The access-point decoder measures its offset on the whole lines of the
    path. *)
Lemma poi_absolute_offset_whole_lines
    (reference : point_locations.PoiWithAccessPointLocation) (path : Route) :
  point_locations.poi_absolute_offset reference path
  == sum_lengths (Route_lines path) * point_locations.poi_poffs reference.
Proof.
  unfold point_locations.poi_absolute_offset, path_length, get_lines.
  simpl. rewrite app_nil_r. reflexivity.
Qed.

(** C4 on the code: [decode_pointalongline] walks [poffs] times the route's
    length, [decode_poi_with_accesspoint] walks [poffs] times the summed
    length of the whole lines.  On a path from the middle of [line_A] to the
    middle of [line_B] (route length 10 m, lines 20 m) and [poffs = 1/8] the
    first walks 1.25 m, to 6.25 m on [line_A]; the second walks 2.5 m, to
    7.5 m on [line_A]. *)
Theorem decoders_offset_base :
  (forall reference path,
     point_locations.pointalongline_absolute_offset reference path
     == Route_length path * point_locations.pal_poffs reference)
  /\ Route_length route_halfA_B == 10
  /\ point_locations.pointalongline_absolute_offset pal_reference route_halfA_B
     == 5 # 4
  /\ point_locations.poi_absolute_offset poi_reference route_halfA_B == 5 # 2
  /\ ~ point_locations.poi_absolute_offset poi_reference route_halfA_B
       == Route_length route_halfA_B
          * point_locations.poi_poffs poi_reference
  /\ (exists r,
        point_locations.decode_pointalongline pal_reference route_halfA_B
        = Returns r
        /\ point_locations.pal_line r = line_A
        /\ point_locations.pal_positive_offset r == 25 # 4)
  /\ (exists r,
        point_locations.decode_poi_with_accesspoint poi_reference route_halfA_B
        = Returns r
        /\ point_locations.poi_line r = line_A
        /\ point_locations.poi_positive_offset r == 15 # 2).
Proof.
  split; [intros; reflexivity |].
  split; [vm_compute; reflexivity |].
  split; [vm_compute; reflexivity |].
  split; [vm_compute; reflexivity |].
  split; [vm_compute; discriminate |].
  split; eexists; (split; [vm_compute; reflexivity |]);
    split; vm_compute; reflexivity.
Qed.

(** * Further properties of the scorer *)

(** ** Exact matches of road class and form of way *)

(** X1: the road-class score is symmetric, it is 1 exactly for equal classes,
    and it is 0 exactly for classes seven apart ([FRC0] against [FRC7]). *)
Theorem score_frc_exact_match (wanted actual : FRC) :
  scoring.score_frc wanted actual == scoring.score_frc actual wanted
  /\ (scoring.score_frc wanted actual == 1 <-> wanted = actual)
  /\ (scoring.score_frc wanted actual == 0
      <-> Z.abs (FRC_value wanted - FRC_value actual) = 7%Z).
Proof.
  destruct wanted, actual;
    (split; [vm_compute; reflexivity |]);
    split; split; intro H;
    first [ reflexivity
          | discriminate H
          | vm_compute in H; discriminate H
          | vm_compute; reflexivity ].
Qed.

(** X2: the form-of-way score takes the four values 0, 0.5, 0.75 and 1 only; it
    is 1 exactly for two equal forms of way other than [UNDEFINED], and it
    is never 0 when one of the two is [UNDEFINED]. *)
Theorem score_fow_exact_match (wanted actual : FOW) :
  (scoring.score_fow wanted actual == 0
   \/ scoring.score_fow wanted actual == 1 # 2
   \/ scoring.score_fow wanted actual == 3 # 4
   \/ scoring.score_fow wanted actual == 1)
  /\ (scoring.score_fow wanted actual == 1
      <-> wanted = actual /\ wanted <> UNDEFINED)
  /\ (scoring.score_fow wanted actual == 0
      -> wanted <> UNDEFINED /\ actual <> UNDEFINED).
Proof.
  split; [| split; [split |]].
  - destruct wanted, actual; vm_compute; tauto.
  - intros H.
    destruct wanted, actual;
      first [ split; [reflexivity | discriminate]
            | vm_compute in H; discriminate H ].
  - intros [<- Hdef].
    destruct wanted; first [reflexivity | now elim Hdef].
  - intros H.
    destruct wanted, actual;
      first [ split; discriminate
            | vm_compute in H; discriminate H ].
Qed.

(** ** The angle score in closed form *)

(** X3: for two angles at most a half turn apart the score falls linearly from
    1 to 0 with their difference; between a half turn and a full turn it
    rises again, linearly from 0 to 1. *)
Theorem score_angle_difference_piecewise (a b : Q) :
  (Qabs (a - b) <= 180 ->
     scoring.score_angle_difference a b == 1 - Qabs (a - b) / 180)
  /\ (180 <= Qabs (a - b) -> Qabs (a - b) <= 360 ->
        scoring.score_angle_difference a b == Qabs (a - b) / 180 - 1).
Proof.
  unfold scoring.score_angle_difference. cbv zeta.
  pose proof (Qabs_nonneg (a - b)) as Ht.
  set (t := Qabs (a - b)) in *.
  assert (Hhigh : 180 <= t -> t <= 360 ->
                  Qabs (Qmod (t + 180) 360 - 180) == 360 - t).
  { intros H1 H2.
    assert (E : Qmod (t + 180) 360 == t - 180).
    { apply (Qmod_unique _ _ _ 1); try lra.
      change (inject_Z 1) with 1. lra. }
    rewrite E. setoid_replace (t - 180 - 180) with (- (360 - t)) by ring.
    rewrite Qabs_opp. apply Qabs_pos. lra. }
  split.
  - intros Hle.
    destruct (Qlt_le_dec t 180) as [Hlt | Hge].
    + assert (E : Qmod (t + 180) 360 == t + 180).
      { apply (Qmod_unique _ _ _ 0); try lra.
        change (inject_Z 0) with 0. lra. }
      rewrite E. setoid_replace (t + 180 - 180) with t by ring.
      rewrite (Qabs_pos t Ht). reflexivity.
    + rewrite Hhigh by lra.
      assert (Et : t == 180) by lra. rewrite Et. field.
  - intros H1 H2. rewrite Hhigh by assumption. field.
Qed.

Lemma score_angle_difference_piecewise_witness :
  Qabs (10 - 350) <= 360
  /\ scoring.score_angle_difference 10 350 == Qabs (10 - 350) / 180 - 1.
Proof.
  assert (H1 : 180 <= Qabs (10 - 350)) by (vm_compute; discriminate).
  assert (H2 : Qabs (10 - 350) <= 360) by (vm_compute; discriminate).
  split; [exact H2 |].
  exact (proj2 (score_angle_difference_piecewise 10 350) H1 H2).
Defined.

(** ** The geographic score against the distance *)

Section geolocation_order.
Context {G : Geodesy}.
Variable wanted : LocationReferencePoint.

(** X5: of two candidates for the same reference point the nearer one never
    scores lower, whatever the radius. *)
Theorem score_geolocation_monotone (near far : PointOnLine) (radius : Q)
    (b1 b2 : bool) :
  0 <= distance (coords wanted) (position near) ->
  distance (coords wanted) (position near)
  <= distance (coords wanted) (position far) ->
  scoring.score_geolocation wanted far radius b2
  <= scoring.score_geolocation wanted near radius b1.
Proof.
  intros H0 Hle. unfold scoring.score_geolocation.
  set (d1 := distance (coords wanted) (position near)) in *.
  set (d2 := distance (coords wanted) (position far)) in *.
  destruct (Qltb_cases d2 radius) as [[-> Hlt2] | [-> Hge2]].
  - assert (E : Qltb d1 radius = true) by (apply Qltb_lt; lra).
    rewrite E.
    assert (Hdiv : d1 / radius <= d2 / radius).
    { unfold Qdiv. apply Qmult_le_compat_r; [assumption |].
      apply Qlt_le_weak, Qinv_lt_0_compat. lra. }
    lra.
  - destruct (Qltb_cases d1 radius) as [[-> Hlt1] | [-> _]]; [| lra].
    assert (Hdiv : d1 / radius <= 1) by (apply Qle_shift_div_r; lra).
    lra.
Qed.

(** X6: with a non-negative distance, the score is positive exactly for a
    candidate closer than the radius. *)
Theorem score_geolocation_positive_within_radius (actual : PointOnLine)
    (radius : Q) (is_last_lrp : bool) :
  0 <= distance (coords wanted) (position actual) ->
  (0 < scoring.score_geolocation wanted actual radius is_last_lrp
   <-> distance (coords wanted) (position actual) < radius).
Proof.
  intros H0. unfold scoring.score_geolocation.
  set (d := distance (coords wanted) (position actual)) in *.
  destruct (Qltb_cases d radius) as [[-> Hlt] | [-> Hge]].
  - assert (Hdiv : d / radius < 1) by (apply Qlt_shift_div_r; lra).
    split.
    + intros _. assumption.
    + intros _. lra.
  - split.
    + intros H. lra.
    + intros H. lra.
Qed.

End geolocation_order.

Lemma score_geolocation_monotone_witness :
  distance (Geodesy := flat.geodesy) (coords flat.lrp_at_start)
    (position (Geodesy := flat.geodesy) flat.half_way)
  <= distance (Geodesy := flat.geodesy) (coords flat.lrp_at_start)
       (position (Geodesy := flat.geodesy) three_quarters)
  /\ scoring.score_geolocation (G := flat.geodesy)
       flat.lrp_at_start three_quarters 100 false
     <= scoring.score_geolocation (G := flat.geodesy)
          flat.lrp_at_start flat.half_way 100 false.
Proof.
  assert (H0 : 0 <= distance (Geodesy := flat.geodesy)
                      (coords flat.lrp_at_start)
                      (position (Geodesy := flat.geodesy) flat.half_way))
    by (vm_compute; discriminate).
  assert (Hle : distance (Geodesy := flat.geodesy) (coords flat.lrp_at_start)
                  (position (Geodesy := flat.geodesy) flat.half_way)
                <= distance (Geodesy := flat.geodesy)
                     (coords flat.lrp_at_start)
                     (position (Geodesy := flat.geodesy) three_quarters))
    by (vm_compute; discriminate).
  split; [exact Hle |].
  exact (score_geolocation_monotone (G := flat.geodesy) flat.lrp_at_start
           flat.half_way three_quarters 100 false false H0 Hle).
Defined.

Lemma score_geolocation_positive_witness :
  0 <= distance (Geodesy := flat.geodesy) (coords flat.lrp_at_start)
         (position (Geodesy := flat.geodesy) flat.half_way)
  /\ 0 < scoring.score_geolocation (G := flat.geodesy)
           flat.lrp_at_start flat.half_way 100 false.
Proof.
  assert (H0 : 0 <= distance (Geodesy := flat.geodesy)
                      (coords flat.lrp_at_start)
                      (position (Geodesy := flat.geodesy) flat.half_way))
    by (vm_compute; discriminate).
  split; [exact H0 |].
  apply (proj2 (score_geolocation_positive_within_radius
                  (G := flat.geodesy) flat.lrp_at_start flat.half_way
                  100 false H0)).
  vm_compute. reflexivity.
Defined.

(** ** The bearing score at line ends *)

Section bearing_edges.
Context {G : Geodesy}.
Variable actual : PointOnLine.

(** X7: a candidate with no line part ahead scores 0 on the bearing, whatever
    bearing is wanted: no after-part for a non-terminal reference point, no
    before-part for the last one. *)
Theorem score_bearing_without_forward_part (wanted : LocationReferencePoint) :
  (snd (split actual) = None -> scoring.score_bearing wanted actual false = 0)
  /\ (fst (split actual) = None
      -> scoring.score_bearing wanted actual true = 0).
Proof.
  unfold scoring.score_bearing, scoring.bearing_point.
  destruct (split actual) as [line1 line2]; simpl.
  split; intros ->; reflexivity.
Qed.

End bearing_edges.

Lemma score_bearing_without_forward_part_witness :
  snd (split (Geodesy := flat.geodesy) (mkPointOnLine flat.north_line 1))
  = None
  /\ scoring.score_bearing (G := flat.geodesy) flat.lrp_at_start
       (mkPointOnLine flat.north_line 1) false = 0.
Proof.
  assert (H : snd (split (Geodesy := flat.geodesy)
                     (mkPointOnLine flat.north_line 1)) = None)
    by reflexivity.
  split; [exact H |].
  exact (proj1 (score_bearing_without_forward_part (G := flat.geodesy)
                  (mkPointOnLine flat.north_line 1) flat.lrp_at_start) H).
Defined.

(** * Further properties of the point decoders *)

Lemma sum_lengths_app (xs ys : list Line.t) :
  sum_lengths (xs ++ ys) == sum_lengths xs + sum_lengths ys.
Proof.
  induction xs as [| x xs IH]; simpl.
  - ring.
  - rewrite IH. ring.
Qed.

Lemma route_ACB_wf : wf_route route_ACB.
Proof.
  unfold wf_route, wf_point, wf_line, route_ACB; simpl.
  repeat split; try discriminate.
  constructor; [discriminate | constructor].
Qed.

(** ** What the walk returns *)

Section walk_outcomes.
Variable route : Route.
Hypothesis route_wf : wf_route route.

(** X10: whatever the walk returns for a non-negative distance is one of
    three: the start line with the start offset raised by the distance, a
    line in between, or the end line with the route's end offset; and the
    offset lies on the returned line. *)
Theorem point_along_linelocation_result (d : Q) (l : Line.t) (offset : Q) :
  0 <= d ->
  point_locations.point_along_linelocation route d = Returns (l, offset) ->
  ((l = line (start route)
    /\ offset = Line.length (line (start route))
                * relative_offset (start route) + d)
   \/ In l (path_inbetween route)
   \/ (l = line (end_ route)
       /\ offset = Line.length (line (end_ route))
                   * relative_offset (end_ route)))
  /\ 0 <= offset /\ offset <= Line.length l.
Proof.
  intros Hd Hret.
  destruct (start_rest_bounds route route_wf) as (Hso & Hsr & Esr).
  destruct (end_part_bounds route route_wf) as (He0 & He1).
  unfold point_locations.point_along_linelocation in Hret.
  set (start_rest :=
         Line.length (line (start route))
         * (1 - relative_offset (start route))) in *.
  destruct (Qltb_cases (d - start_rest) 0) as [[E Hlt] | [E Hge]];
    rewrite E in Hret.
  - injection Hret as <- <-.
    split; [left; split; reflexivity |]. split; lra.
  - destruct (point_locations.walk_inbetween (path_inbetween route)
                (d - start_rest)) as [[road off] | rest] eqn:Hwalk.
    + injection Hret as <- <-.
      destruct (walk_inbetween_found _ _ _ _ Hge Hwalk)
        as (Hin & Hlo & Hhi & _).
      split; [right; left; exact Hin |]. split; assumption.
    + destruct (Qltb_cases
                  (rest - Line.length (line (end_ route))
                          * relative_offset (end_ route)) 0)
        as [[E' _] | [E' _]]; rewrite E' in Hret; [| discriminate Hret].
      injection Hret as <- <-.
      split; [right; right; split; reflexivity |]. split; assumption.
Qed.

End walk_outcomes.

Lemma point_along_linelocation_result_witness :
  0 <= 15
  /\ exists l offset,
       point_locations.point_along_linelocation route_ACB 15
       = Returns (l, offset)
       /\ 0 <= offset /\ offset <= Line.length l.
Proof.
  assert (H0 : 0 <= 15) by discriminate.
  split; [exact H0 |].
  destruct (point_locations.point_along_linelocation route_ACB 15)
    as [[l offset] | msg] eqn:Hret.
  - exists l, offset. split; [reflexivity |].
    exact (proj2 (point_along_linelocation_result route_ACB route_ACB_wf
                    15 l offset H0 Hret)).
  - vm_compute in Hret. discriminate Hret.
Defined.

(** ** The two decoders *)

Lemma whole_lines_nonneg (path : Route) :
  wf_route path -> 0 <= sum_lengths (Route_lines path).
Proof.
  intros ((Hs & _ & _) & Hroads & (He & _ & _)).
  pose proof (sum_lengths_nonneg _ Hroads) as Hsum.
  unfold wf_line in Hs, He. unfold Route_lines. simpl.
  rewrite sum_lengths_app.
  destruct (same_line path); simpl; lra.
Qed.

Lemma same_line_nothing_inbetween (path : Route) :
  same_line path = true -> path_inbetween path = [].
Proof.
  unfold same_line. intros H.
  apply andb_true_iff in H. destruct H as [H _].
  apply andb_true_iff in H. destruct H as [_ H].
  destruct (path_inbetween path); [reflexivity | discriminate H].
Qed.

(** The whole lines of a route are at least as long as the route, by the
    part of the start line before the start and the part of the end line
    after the end. *)
Lemma Route_length_whole_lines (path : Route) :
  wf_route path ->
  Route_length path <= sum_lengths (Route_lines path)
  /\ (relative_offset (start path) == 0 ->
      relative_offset (end_ path) == 1 ->
      Route_length path == sum_lengths (Route_lines path)).
Proof.
  intros ((Hs & Hs0 & Hs1) & Hroads & (He & He0 & He1)).
  pose proof (sum_lengths_nonneg _ Hroads) as Hsum.
  unfold wf_line in Hs, He.
  unfold Route_length, Route_lines. simpl. rewrite sum_lengths_app.
  destruct (same_line path) eqn:Hsame; simpl.
  - rewrite (same_line_nothing_inbetween path Hsame) in *. simpl.
    split.
    + assert (H1 : 0 <= Line.length (line (start path))
                        * (1 - relative_offset (end_ path)))
        by (apply Qmult_le_0_compat; lra).
      assert (H2 : 0 <= Line.length (line (start path))
                        * relative_offset (start path))
        by (apply Qmult_le_0_compat; lra).
      assert (E : Line.length (line (start path))
                  * (relative_offset (end_ path)
                     - relative_offset (start path))
                  == Line.length (line (start path))
                     - Line.length (line (start path))
                       * (1 - relative_offset (end_ path))
                     - Line.length (line (start path))
                       * relative_offset (start path)) by ring.
      lra.
    + intros E0 E1. rewrite E0, E1. ring.
  - split.
    + assert (H1 : 0 <= Line.length (line (end_ path))
                        * (1 - relative_offset (end_ path)))
        by (apply Qmult_le_0_compat; lra).
      assert (H2 : 0 <= Line.length (line (start path))
                        * relative_offset (start path))
        by (apply Qmult_le_0_compat; lra).
      assert (E : Line.length (line (start path))
                  * (1 - relative_offset (start path))
                  + sum_lengths (path_inbetween path)
                  + Line.length (line (end_ path))
                    * relative_offset (end_ path)
                  == Line.length (line (start path))
                     + sum_lengths (path_inbetween path)
                     + Line.length (line (end_ path))
                     - Line.length (line (end_ path))
                       * (1 - relative_offset (end_ path))
                     - Line.length (line (start path))
                       * relative_offset (start path)) by ring.
      lra.
    + intros E0 E1. rewrite E0, E1. ring.
Qed.

(** A route has a non-negative length. *)
Lemma Route_length_nonneg (path : Route) :
  wf_route path -> 0 <= Route_length path.
Proof.
  intros ((Hs & Hs0 & Hs1) & Hroads & (He & He0 & He1)).
  pose proof (sum_lengths_nonneg _ Hroads) as Hsum.
  unfold wf_line in Hs, He. unfold Route_length.
  destruct (same_line path) eqn:Hsame.
  - unfold same_line in Hsame.
    apply andb_true_iff in Hsame. destruct Hsame as [_ Hle].
    apply Qle_bool_iff in Hle.
    apply Qmult_le_0_compat; lra.
  - assert (H1 : 0 <= Line.length (line (start path))
                      * (1 - relative_offset (start path)))
      by (apply Qmult_le_0_compat; lra).
    assert (H2 : 0 <= Line.length (line (end_ path))
                      * relative_offset (end_ path))
      by (apply Qmult_le_0_compat; lra).
    lra.
Qed.

Section decoder_facts.
Variable path : Route.
Hypothesis path_wf : wf_route path.

(** X15: whatever [decode_pointalongline] returns for a non-negative offset
    fraction lies on a line of the path, with an offset on that line, and
    carries the reference's side of road and orientation. *)
Theorem decode_pointalongline_result
    (reference : point_locations.PointAlongLineLocation)
    (r : point_locations.PointAlongLine) :
  0 <= point_locations.pal_poffs reference ->
  point_locations.decode_pointalongline reference path = Returns r ->
  In (point_locations.pal_line r)
     (line (start path) :: path_inbetween path ++ [line (end_ path)])
  /\ 0 <= point_locations.pal_positive_offset r
  /\ point_locations.pal_positive_offset r
     <= Line.length (point_locations.pal_line r)
  /\ point_locations.pal_side r = point_locations.pal_sideOfRoad reference
  /\ point_locations.pal_orientation r
     = point_locations.pal_ref_orientation reference.
Proof.
  intros Hp0 Hdec.
  set (d := point_locations.pointalongline_absolute_offset reference path)
    in *.
  assert (H0 : 0 <= d)
    by (unfold d, point_locations.pointalongline_absolute_offset;
        apply Qmult_le_0_compat; [apply Route_length_nonneg |]; assumption).
  unfold point_locations.decode_pointalongline in Hdec. fold d in Hdec.
  destruct (point_locations.point_along_linelocation path d)
    as [[l offset] | msg] eqn:Hret; [| discriminate Hdec].
  injection Hdec as <-. simpl.
  destruct (point_along_linelocation_in_bounds path path_wf d l offset H0 Hret)
    as (Hin & Hlo & Hhi).
  repeat split; assumption.
Qed.

(** X17: whatever [decode_poi_with_accesspoint] returns for a non-negative
    offset fraction lies on a line of the path, with an offset on that line;
    it carries the reference's point of interest, side of road and
    orientation, and its access point is projected along that line over that
    offset. *)
Theorem decode_poi_with_accesspoint_result
    (reference : point_locations.PoiWithAccessPointLocation)
    (r : point_locations.PoiWithAccessPoint) :
  0 <= point_locations.poi_poffs reference ->
  point_locations.decode_poi_with_accesspoint reference path = Returns r ->
  In (point_locations.poi_line r)
     (line (start path) :: path_inbetween path ++ [line (end_ path)])
  /\ 0 <= point_locations.poi_positive_offset r
  /\ point_locations.poi_positive_offset r
     <= Line.length (point_locations.poi_line r)
  /\ point_locations.poi r
     = mkCoordinates (point_locations.poi_lon reference)
         (point_locations.poi_lat reference)
  /\ point_locations.poi_side r = point_locations.poi_sideOfRoad reference
  /\ point_locations.poi_orientation r
     = point_locations.poi_ref_orientation reference
  /\ forall G : Geodesy,
       point_locations.access_point_coordinates r
       = project_along_path
           (Line.coordinates (point_locations.poi_line r))
           (point_locations.poi_positive_offset r).
Proof.
  intros Hp0 Hdec.
  set (d := point_locations.poi_absolute_offset reference path) in *.
  assert (H0 : 0 <= d).
  { unfold d. rewrite poi_absolute_offset_whole_lines.
    apply Qmult_le_0_compat; [apply whole_lines_nonneg |]; assumption. }
  unfold point_locations.decode_poi_with_accesspoint in Hdec. fold d in Hdec.
  destruct (point_locations.point_along_linelocation path d)
    as [[l offset] | msg] eqn:Hret; [| discriminate Hdec].
  injection Hdec as <-. simpl.
  destruct (point_along_linelocation_in_bounds path path_wf d l offset H0 Hret)
    as (Hin & Hlo & Hhi).
  repeat split; assumption.
Qed.

(** X19: for the same non-negative offset fraction the access-point decoder
    never walks less far into the path than the point-along-line decoder,
    and equally far when the path starts at the start of its first line and
    ends at the end of its last. *)
Theorem poi_offset_not_below_pointalongline_offset
    (pal : point_locations.PointAlongLineLocation)
    (poi : point_locations.PoiWithAccessPointLocation) :
  point_locations.pal_poffs pal == point_locations.poi_poffs poi ->
  0 <= point_locations.poi_poffs poi ->
  point_locations.pointalongline_absolute_offset pal path
  <= point_locations.poi_absolute_offset poi path
  /\ (relative_offset (start path) == 0 ->
      relative_offset (end_ path) == 1 ->
      point_locations.pointalongline_absolute_offset pal path
      == point_locations.poi_absolute_offset poi path).
Proof.
  intros Hsame Hp0.
  destruct (Route_length_whole_lines path path_wf) as [Hle Heq].
  rewrite poi_absolute_offset_whole_lines.
  unfold point_locations.pointalongline_absolute_offset. rewrite Hsame.
  split.
  - apply Qmult_le_compat_r; assumption.
  - intros E0 E1. rewrite (Heq E0 E1). reflexivity.
Qed.

End decoder_facts.

Lemma decode_pointalongline_result_witness :
  0 <= point_locations.pal_poffs pal_reference
  /\ exists r,
       point_locations.decode_pointalongline pal_reference route_ACB
       = Returns r
       /\ 0 <= point_locations.pal_positive_offset r
       /\ point_locations.pal_positive_offset r
          <= Line.length (point_locations.pal_line r).
Proof.
  assert (Hp0 : 0 <= point_locations.pal_poffs pal_reference)
    by discriminate.
  split; [exact Hp0 |].
  destruct (point_locations.decode_pointalongline pal_reference route_ACB)
    as [r | msg] eqn:Hdec.
  - exists r. split; [reflexivity |].
    destruct (decode_pointalongline_result route_ACB route_ACB_wf
                pal_reference r Hp0 Hdec) as (_ & Hlo & Hhi & _).
    split; assumption.
  - vm_compute in Hdec. discriminate Hdec.
Defined.

Lemma decode_poi_with_accesspoint_result_witness :
  0 <= point_locations.poi_poffs poi_reference
  /\ exists r,
       point_locations.decode_poi_with_accesspoint poi_reference route_halfA_B
       = Returns r
       /\ 0 <= point_locations.poi_positive_offset r
       /\ point_locations.poi_positive_offset r
          <= Line.length (point_locations.poi_line r).
Proof.
  assert (Hp0 : 0 <= point_locations.poi_poffs poi_reference)
    by discriminate.
  split; [exact Hp0 |].
  destruct (point_locations.decode_poi_with_accesspoint
              poi_reference route_halfA_B) as [r | msg] eqn:Hdec.
  - exists r. split; [reflexivity |].
    destruct (decode_poi_with_accesspoint_result route_halfA_B
                route_halfA_B_wf poi_reference r Hp0 Hdec)
      as (_ & Hlo & Hhi & _).
    split; assumption.
  - vm_compute in Hdec. discriminate Hdec.
Defined.

Lemma poi_offset_not_below_pointalongline_offset_witness :
  point_locations.pal_poffs pal_reference
  == point_locations.poi_poffs poi_reference
  /\ point_locations.pointalongline_absolute_offset pal_reference
       route_halfA_B
     <= point_locations.poi_absolute_offset poi_reference route_halfA_B.
Proof.
  assert (Hsame : point_locations.pal_poffs pal_reference
                  == point_locations.poi_poffs poi_reference)
    by reflexivity.
  assert (Hp0 : 0 <= point_locations.poi_poffs poi_reference)
    by discriminate.
  split; [exact Hsame |].
  exact (proj1 (poi_offset_not_below_pointalongline_offset route_halfA_B
                  route_halfA_B_wf pal_reference poi_reference Hsame Hp0)).
Defined.

(** ** Negative distances *)

(** X14: a negative distance is not refused: the walk steps back from the
    route's start along the start line and returns the start offset lowered
    by that distance, which lies before the route's start. *)
Theorem point_along_linelocation_negative_distance (route : Route) (d : Q) :
  wf_route route ->
  d < 0 ->
  point_locations.point_along_linelocation route d
  = Returns (line (start route),
             Line.length (line (start route))
             * relative_offset (start route) + d)
  /\ Line.length (line (start route)) * relative_offset (start route) + d
     < Line.length (line (start route)) * relative_offset (start route).
Proof.
  intros Hwf Hd.
  destruct (start_rest_bounds route Hwf) as (_ & Hrest & _).
  unfold point_locations.point_along_linelocation.
  assert (E : Qltb (d - Line.length (line (start route))
                        * (1 - relative_offset (start route))) 0 = true)
    by (apply Qltb_lt; lra).
  rewrite E. split; [reflexivity | lra].
Qed.

Lemma point_along_linelocation_negative_distance_witness :
  - (3) < 0
  /\ point_locations.point_along_linelocation route_halfA_B (- (3))
     = Returns (line_A, Line.length line_A * (1 # 2) + - (3)).
Proof.
  assert (Hd : - (3) < 0) by reflexivity.
  split; [exact Hd |].
  exact (proj1 (point_along_linelocation_negative_distance route_halfA_B
                  (- (3)) route_halfA_B_wf Hd)).
Defined.
